(** * macrostrat-python-libraries: the code timer and the statement-execution layer

    The first part embeds [macrostrat/utils/timer.py] as it is written: the
    [Timing] records, the [Timer] objects that live on a heap and are mutated
    in place, the context variable [code_timer], and the calls to
    [perf_counter()].  The second part models the statement-execution layer
    that [test_database.py] exercises. *)

From Stdlib Require Import Floats Ascii String.
From stdpp Require Import gmap strings list fin_maps.

Open Scope string_scope.
Open Scope list_scope.

(** ** The Python runtime the timer relies on *)

(** What the timer takes from the interpreter and not from this repository:
    the readings of [perf_counter()] (the n-th call returns
    [perf_counter_at n]), the builtin [round(x, ndigits)] on floats, and the
    text an f-string gives for a float. *)
Class PyRuntime := {
  perf_counter_at : nat -> float;
  py_round : float -> Z -> float;
  py_str_float : float -> string;
}.

Module timer.

(** *** Data *)

(** [class Timing(BaseModel)]. *)
Record Timing := mkTiming {
  name : string;
  delta : float;
  total : float;
  time : float;
}.

(** A [Timer] object is known by its identity; its [timings] attribute is a
    list that [_add_step] mutates in place. *)
Definition ref := nat.

(** The value held by a context variable: Python's [None] or a [Timer]. *)
Definition pyval := option ref.

(** The interpreter state the module reads and writes.
    - [heap]: the instance attribute [timings] of every [Timer] whose
      [__init__] has run;
    - [code_timer]: the context variable of line 12 in the current context,
      [None] while no value is set ([get()] then returns the default);
    - [ticks]: how many times [perf_counter()] has been called. *)
Record state := mkState {
  heap : gmap ref (list Timing);
  code_timer : option pyval;
  ticks : nat;
}.

Inductive exn :=
  | IndexError
  | Exception (msg : string).

Inductive res (A : Type) :=
  | Ok (a : A)
  | Raise (e : exn).
Arguments Ok {A} a.
Arguments Raise {A} e.

(** Computations that read and write the state and may raise. *)
Definition M (A : Type) := state -> res A * state.

Definition ret {A} (a : A) : M A := fun s => (Ok a, s).
Definition raise {A} (e : exn) : M A := fun s => (Raise e, s).
Definition bind {A B} (m : M A) (k : A -> M B) : M B :=
  fun s => match m s with
           | (Ok a, s') => k a s'
           | (Raise e, s') => (Raise e, s')
           end.

Notation "x <- m ;; k" := (bind m (fun x => k))
  (at level 100, m at next level, right associativity).
Notation "m ;;; k" := (bind m (fun _ => k))
  (at level 100, right associativity).

(** *** Primitive operations *)

Definition perf_counter `{PyRuntime} : M float :=
  fun s => (Ok (perf_counter_at (ticks s)),
            mkState (heap s) (code_timer s) (S (ticks s))).

(** [self.timings]: the instance attribute, or the class attribute
    [timings = []] of line 23 when [__init__] has not run for [self]. *)
Definition timings_of (s : state) (self : ref) : list Timing :=
  default [] (heap s !! self).

Definition get_timings (self : ref) : M (list Timing) :=
  fun s => (Ok (timings_of s self), s).

(** [l[-1]] and [l[0]]: [IndexError] on the empty list. *)
Definition index_last {A} (l : list A) : M A :=
  match last l with Some x => ret x | None => raise IndexError end.
Definition index_0 {A} (l : list A) : M A :=
  match l with x :: _ => ret x | [] => raise IndexError end.

(** [self.timings.append(rec)]. *)
Definition append (self : ref) (rec : Timing) : M unit :=
  fun s => (Ok tt,
            mkState (<[self := timings_of s self ++ [rec]]> (heap s))
                    (code_timer s) (ticks s)).

(** [l[1:-1]]. *)
Definition slice_1_m1 {A} (l : list A) : list A :=
  take (length l - 1 - 1) (drop 1 l).

(** [code_timer.get()], with [default=None]. *)
Definition code_timer_get (s : state) : pyval :=
  match code_timer s with Some v => v | None => None end.

(** [code_timer.set(v)]: the token remembers the old content. *)
Definition code_timer_set (v : pyval) : M (option pyval) :=
  fun s => (Ok (code_timer s), mkState (heap s) (Some v) (ticks s)).

(** [code_timer.reset(token)]. *)
Definition code_timer_reset (token : option pyval) : M unit :=
  fun s => (Ok tt, mkState (heap s) token (ticks s)).

(** *** The class [Timer] *)

(** [Timer()]: allocates the object and runs [__init__] (line 33). *)
Definition __init__ `{PyRuntime} : M ref :=
  t <- perf_counter ;;
  fun s =>
    let self := fresh (dom (heap s)) in
    (Ok self,
     mkState (<[self := [mkTiming "start" 0 0 t]]> (heap s))
             (code_timer s) (ticks s)).

(** Lines 35-42. *)
Definition _add_step `{PyRuntime} (self : ref) (name : string) : M Timing :=
  l <- get_timings self ;;
  last_step <- index_last l ;;
  t <- perf_counter ;;
  l0 <- get_timings self ;;
  first <- index_0 l0 ;;
  let rec := mkTiming name (t - time last_step) (t - time first) t in
  append self rec ;;;
  ret rec.

(** Lines 25-30. *)
Definition add_step `{PyRuntime} (name : string) : M unit :=
  fun s =>
    match code_timer_get s with
    | None => ret tt s
    | Some timer => (_add_step timer name ;;; ret tt) s
    end.

(** One entry of the header: [f"{n};dur={round(x*1000, 1)}"]. *)
Definition dur_entry `{PyRuntime} (n : string) (x : float) : string :=
  n +:+ ";dur=" +:+ py_str_float (py_round (x * 1000) 1).

(** [", ".join(l)]. *)
Definition join (sep : string) (l : list string) : string :=
  String.concat sep l.

(** The list [timings] of [server_timings] just before the join
    (lines 45-47). *)
Definition server_timings_entries `{PyRuntime} (self : ref) : M (list string) :=
  _add_step self "end" ;;;
  l <- get_timings self ;;
  let timings := map (fun t => dur_entry (name t) (delta t)) (slice_1_m1 l) in
  l' <- get_timings self ;;
  last_t <- index_last l' ;;
  ret (timings ++ [dur_entry "total" (total last_t)]).

(** Lines 44-48. *)
Definition server_timings `{PyRuntime} (self : ref) : M string :=
  timings <- server_timings_entries self ;;
  ret (join ", " timings).

(** [try: m] followed by [finally: cleanup]: the cleanup runs whether [m]
    returns or raises, and the outcome of [m] is passed on unless the
    cleanup raises itself. *)
Definition try_finally {A} (m : M A) (cleanup : M unit) : M A :=
  fun s =>
    let '(r, s1) := m s in
    match cleanup s1 with
    | (Ok _, s2) => (r, s2)
    | (Raise e, s2) => (Raise e, s2)
    end.

(** Lines 50-56: [with self.context() as t: body t].  The generator is
    resumed at the [yield] with the outcome of the body, so the body stands
    where the [yield] is. *)
Definition context {A} (self : ref) (body : ref -> M A) : M A :=
  token <- code_timer_set (Some self) ;;
  try_finally (body self) (code_timer_reset token).

(** *** Sessions as callers drive them *)

(** The record [_add_step] builds in state [s] for a timer whose list is
    [first :: rest]. *)
Definition step_record `{PyRuntime} (n : string) (s : state) (first : Timing)
    (rest : list Timing) : Timing :=
  let t := perf_counter_at (ticks s) in
  mkTiming n (t - time (default first (last rest))) (t - time first) t.

(** The calls a client of the module can make: [Timer()],
    [Timer.add_step(n)], [self._add_step(n)], [self.server_timings()],
    [code_timer.set(v)] and [code_timer.reset(token)]; entering and leaving
    [self.context()] are the last two. *)
Inductive op :=
  | NewTimer
  | AddStep (n : string)
  | SelfAddStep (self : ref) (n : string)
  | ServerTimings (self : ref)
  | SetAmbient (v : pyval)
  | ResetAmbient (token : option pyval).

(** The state after one call; an exception the call raises is caught by the
    caller. *)
Definition exec_op `{PyRuntime} (o : op) (s : state) : state :=
  match o with
  | NewTimer => snd (__init__ s)
  | AddStep n => snd (add_step n s)
  | SelfAddStep self n => snd (_add_step self n s)
  | ServerTimings self => snd (server_timings self s)
  | SetAmbient v => snd (code_timer_set v s)
  | ResetAmbient token => snd (code_timer_reset token s)
  end.

Definition exec_ops `{PyRuntime} (os : list op) (s : state) : state :=
  fold_left (fun s o => exec_op o s) os s.

(** The state entered by [context]: [self] is the ambient timer. *)
Definition entered (self : ref) (s : state) : state :=
  mkState (heap s) (Some (Some self)) (ticks s).

(** A runtime to evaluate examples with: the clock advances by an eighth of
    a second per reading, [round] and the float printer are stand-ins. *)
Definition example_runtime : PyRuntime :=
  {| perf_counter_at n := (PrimFloat.of_uint63 (Uint63.of_nat n) / 8)%float;
     py_round x _ := x;
     py_str_float x := if PrimFloat.eqb x 0 then "0.0" else "<ms>" |}.

(** No timer yet, no ambient session, the clock not yet read. *)
Definition initial_state : state := mkState ∅ None 0.

(** A body that records a step and then fails, a body that records a step
    and returns, and the sessions that run them. *)
Definition failing_body `{PyRuntime} (_ : ref) : M unit :=
  add_step "query" ;;; raise (Exception "boom").
Definition returning_body `{PyRuntime} (_ : ref) : M unit :=
  add_step "query".
Definition session_of `{PyRuntime} (body : ref -> M unit) : M unit :=
  t <- __init__ ;; context t body.

(** [try: m] followed by [except Exception: pass]. *)
Definition try_except (m : M unit) : M unit :=
  fun s => match m s with
           | (Ok _, s') => (Ok tt, s')
           | (Raise _, s') => (Ok tt, s')
           end.

(** Two timers, the session of the second nested in the session of the
    first; the inner body fails and the failure is caught outside the inner
    block. *)
Definition nested_sessions `{PyRuntime} : M unit :=
  a <- __init__ ;;
  b <- __init__ ;;
  add_step "outside" ;;;
  context a (fun _ =>
    add_step "before" ;;;
    try_except (context b failing_body) ;;;
    add_step "after").

(** The two sessions run from the initial state. *)
Definition failing_session : res unit * state :=
  session_of (H := example_runtime) (failing_body (H := example_runtime))
    initial_state.
Definition returning_session : res unit * state :=
  session_of (H := example_runtime) (returning_body (H := example_runtime))
    initial_state.

(** The list ends with a record named [end]. *)
Definition ends_with_end_step (l : list Timing) : Prop :=
  ∃ rec, last l = Some rec ∧ name rec = "end".

(** A session under way: one timer, ambient, with one step recorded. *)
Definition session_state : state :=
  exec_ops (H := example_runtime)
    [NewTimer; SetAmbient (Some 0); AddStep "query"] initial_state.

(** *** Client programs and what sessions keep *)

(** [for n in names: Timer.add_step(n)]. *)
Fixpoint add_steps `{PyRuntime} (names : list string) : M unit :=
  match names with
  | [] => ret tt
  | n :: ns => add_step n ;;; add_steps ns
  end.

(** A timed request, the way the class is meant to be used:
    [t = Timer()], then inside [with t.context():] one [Timer.add_step(n)]
    per name and at last [t.server_timings()]. *)
Definition timed_session `{PyRuntime} (names : list string) : M string :=
  t <- __init__ ;;
  context t (fun t => add_steps names ;;; server_timings t).

(** The records [add_steps names] appends when the clock has been read
    [tick] times, the timer's first record is [first] and its last one
    [prev]. *)
Fixpoint step_records `{PyRuntime} (tick : nat) (first prev : Timing)
    (names : list string) : list Timing :=
  match names with
  | [] => []
  | n :: ns =>
      let t := perf_counter_at tick in
      let rec := mkTiming n (t - time prev) (t - time first) t in
      rec :: step_records (S tick) first rec ns
  end.

(** Every record after the first holds, as [delta], its reading minus the
    reading of the record before it and, as [total], its reading minus the
    reading of the first record. *)
Definition well_timed (l : list Timing) : Prop :=
  ∀ (i : nat) (start prev r : Timing),
    l !! 0 = Some start → l !! i = Some prev → l !! S i = Some r →
    delta r = (time r - time prev)%float
    ∧ total r = (time r - time start)%float.

(** Two timers, the first one ambient. *)
Definition two_timers_state : state :=
  exec_ops (H := example_runtime)
    [NewTimer; NewTimer; SetAmbient (Some 0)] initial_state.

(** The call [o] neither names the timer [b] nor makes it ambient. *)
Definition op_avoids (b : ref) (o : op) : bool :=
  match o with
  | NewTimer | AddStep _ => true
  | SelfAddStep self _ | ServerTimings self => bool_decide (self ≠ b)
  | SetAmbient v => bool_decide (v ≠ Some b)
  | ResetAmbient token => bool_decide (token ≠ Some (Some b))
  end.

End timer.

(** ** The statement-execution layer

    [test_database.py] imports [infer_is_sql_text] from
    [macrostrat.database.utils] and calls [Database.run_sql]; neither module
    is among the sources.  The definitions of this part follow the written
    specification of these components, and the tests are their oracle. *)

(** What the specification leaves open about the classifier: the keywords
    behind the "etc." of its list, the extensions other than [.sql], and how
    long a string may be and still be taken for a path. *)
Class SqlLexicon := {
  sql_keywords_etc : list string;
  sql_extensions_etc : list string;
  max_path_length : nat;
}.

Module database.

(** *** Text helpers *)

Definition newline : ascii := "010"%char.

Definition is_lower (c : ascii) : bool :=
  ((97 <=? nat_of_ascii c) && (nat_of_ascii c <=? 122))%nat.
Definition is_upper (c : ascii) : bool :=
  ((65 <=? nat_of_ascii c) && (nat_of_ascii c <=? 90))%nat.
Definition is_digit (c : ascii) : bool :=
  ((48 <=? nat_of_ascii c) && (nat_of_ascii c <=? 57))%nat.
Definition is_ident_char (c : ascii) : bool :=
  is_lower c || is_upper c || is_digit c || Ascii.eqb c "_".
Definition is_space (c : ascii) : bool :=
  Ascii.eqb c " " || Ascii.eqb c newline || Ascii.eqb c "009" || Ascii.eqb c "013".

Definition upper_char (c : ascii) : ascii :=
  if is_lower c then ascii_of_nat (nat_of_ascii c - 32) else c.

Fixpoint upper (s : string) : string :=
  match s with
  | EmptyString => EmptyString
  | String c s' => String (upper_char c) (upper s')
  end.

(** [contains needle s]: [needle] occurs in [s]. *)
Fixpoint contains (needle s : string) : bool :=
  String.prefix needle s ||
  match s with
  | EmptyString => false
  | String _ s' => contains needle s'
  end.

Fixpoint ends_with (suffix s : string) : bool :=
  String.eqb suffix s ||
  match s with
  | EmptyString => false
  | String _ s' => ends_with suffix s'
  end.

Fixpoint has_char (p : ascii -> bool) (s : string) : bool :=
  match s with
  | EmptyString => false
  | String c s' => p c || has_char p s'
  end.

(** The longest prefix of identifier characters, and what follows it. *)
Fixpoint ident_prefix (s : string) : string * string :=
  match s with
  | EmptyString => (EmptyString, EmptyString)
  | String c s' =>
      if is_ident_char c
      then let '(i, r) := ident_prefix s' in (String c i, r)
      else (EmptyString, s)
  end.

(** *** InputClassifier *)

Inductive SourceKind := InlineText | Bytes | FilePath.

(** A value handed to the classifier: a string or a byte sequence. *)
Inductive value :=
  | VStr (s : string)
  | VBytes (b : list Byte.byte).

Definition sql_keywords `{SqlLexicon} : list string :=
  "SELECT" :: "INSERT" :: "CREATE" :: sql_keywords_etc.

Definition sql_extensions `{SqlLexicon} : list string :=
  ".sql" :: sql_extensions_etc.

(** A keyword occurs in the text, whatever its case. *)
Definition has_sql_keyword `{SqlLexicon} (s : string) : bool :=
  existsb (fun k => contains (upper k) (upper s)) sql_keywords.

Definition has_newline (s : string) : bool :=
  has_char (Ascii.eqb newline) s.

(** The shape of a path: no whitespace, a known extension, short enough. *)
Definition path_shape `{SqlLexicon} (s : string) : bool :=
  negb (has_char is_space s)
  && existsb (fun e => ends_with e s) sql_extensions
  && (String.length s <=? max_path_length)%nat.

(** Modelled from the spec: the classifier behind [infer_is_sql_text] of
    [macrostrat.database.utils], which is not among the sources.  A byte
    sequence is [Bytes]; a string is [FilePath] only if it holds no keyword
    and no newline and has the shape of a path; otherwise [InlineText]. *)
Definition classify `{SqlLexicon} (v : value) : SourceKind :=
  match v with
  | VBytes _ => Bytes
  | VStr s =>
      if has_sql_keyword s || has_newline s then InlineText
      else if path_shape s then FilePath
      else InlineText
  end.

(** Modelled from the spec: [infer_is_sql_text] as the tests use it, true
    unless the value is classified as a path. *)
Definition infer_is_sql_text `{SqlLexicon} (v : value) : bool :=
  match classify v with
  | FilePath => false
  | _ => true
  end.

(** *** PlaceholderAnalyzer *)

Inductive ClientStyle := Named | Positional | NoClientStyle.

Record PlaceholderProfile := mkProfile {
  clientStyle : ClientStyle;
  hasServerPercent : bool;
  ambiguous : bool;
}.

(** Where the lexer stands: in plain SQL, inside a quoted string, or inside
    the dollar-quoted span opened by [$tag$]. *)
Inductive lex_mode :=
  | Outside
  | InQuote
  | InDollar (tag : string).

(** What the lexer reports: a client-style [:name], a server-style [%s] or
    [%(name)s], or a [%] that is literal content ([in_dollar] tells whether
    it stands inside a dollar-quoted span). *)
Inductive mark :=
  | ClientNamed (name : string)
  | ServerPositional
  | ServerNamed (name : string)
  | LiteralPercent (in_dollar : bool).

Definition delimiter (tag : string) : string := "$" +:+ tag +:+ "$".

(** After a [$]: the tag of the delimiter [$tag$] that starts there, and the
    text behind the delimiter. *)
Definition dollar_tag (s : string) : option (string * string) :=
  let '(tag, r) := ident_prefix s in
  match r with
  | String c r' => if Ascii.eqb c "$" then Some (tag, r') else None
  | EmptyString => None
  end.

(** After a [%] outside every dollar-quoted span: [%s], [%(name)s], or a
    bare percent sign. *)
Definition percent_shape (s : string) : mark :=
  match s with
  | String c s' =>
      if Ascii.eqb c "s" then ServerPositional
      else if Ascii.eqb c "(" then
        let '(n, r) := ident_prefix s' in
        if negb (String.eqb n "") && String.prefix ")s" r
        then ServerNamed n
        else LiteralPercent false
      else LiteralPercent false
  | EmptyString => LiteralPercent false
  end.

(** Modelled from the spec: the lexer of the analyzer, which is not among
    the sources.  It tracks quoted strings and dollar-quoted spans; [:name]
    counts outside both and not after another colon, [%s] and [%(name)s]
    count outside the spans, and every [%] inside a span is literal.
    [skip] counts the characters of a delimiter still to pass over, [prev]
    is the character just read. *)
Fixpoint scan (mode : lex_mode) (skip : nat) (prev : option ascii)
    (s : string) : list mark :=
  match s with
  | EmptyString => []
  | String c s' =>
      match skip with
      | S k => scan mode k (Some c) s'
      | O =>
          match mode with
          | InDollar tag =>
              if Ascii.eqb c "$" && String.prefix (tag +:+ "$") s'
              then scan Outside (S (String.length tag)) (Some c) s'
              else if Ascii.eqb c "%"
              then LiteralPercent true :: scan mode 0 (Some c) s'
              else scan mode 0 (Some c) s'
          | InQuote =>
              if Ascii.eqb c "'" then scan Outside 0 (Some c) s'
              else if Ascii.eqb c "%"
              then percent_shape s' :: scan mode 0 (Some c) s'
              else scan mode 0 (Some c) s'
          | Outside =>
              if Ascii.eqb c "'" then scan InQuote 0 (Some c) s'
              else if Ascii.eqb c "$" then
                match dollar_tag s' with
                | Some (tag, body) =>
                    if contains (delimiter tag) body
                    then scan (InDollar tag) (S (String.length tag)) (Some c) s'
                    else scan Outside 0 (Some c) s'
                | None => scan Outside 0 (Some c) s'
                end
              else if Ascii.eqb c "%"
              then percent_shape s' :: scan Outside 0 (Some c) s'
              else if Ascii.eqb c ":" then
                let '(n, _) := ident_prefix s' in
                if negb (String.eqb n "")
                   && negb (bool_decide (prev = Some ":"%char))
                then ClientNamed n :: scan Outside 0 (Some c) s'
                else scan Outside 0 (Some c) s'
              else scan Outside 0 (Some c) s'
          end
      end
  end.

Definition marks (text : string) : list mark := scan Outside 0 None text.

Definition is_client (m : mark) : bool :=
  match m with ClientNamed _ => true | _ => false end.
Definition is_server (m : mark) : bool :=
  match m with ServerPositional | ServerNamed _ => true | _ => false end.
Definition is_literal_percent (m : mark) : bool :=
  match m with LiteralPercent _ => true | _ => false end.

(** The names behind the [:name] and the [%(name)s] placeholders. *)
Definition client_names (text : string) : list string :=
  omap (fun m => match m with ClientNamed n => Some n | _ => None end)
       (marks text).
Definition server_names (text : string) : list string :=
  omap (fun m => match m with ServerNamed n => Some n | _ => None end)
       (marks text).


(** *** Texts whose percent signs all stand in dollar-quoted spans *)

Definition is_percent (c : ascii) : bool := Ascii.eqb c "%".
Definition is_dollar (c : ascii) : bool := Ascii.eqb c "$".


(** Whether a quoted string is open at the end of [s], given whether one is
    open at its start. *)
Fixpoint quote_open (open : bool) (s : string) : bool :=
  match s with
  | EmptyString => open
  | String c s' => quote_open (if Ascii.eqb c "'" then negb open else open) s'
  end.

(** Plain SQL: no percent sign, no dollar sign, every quoted string
    closed. *)
Definition plain_sql (s : string) : bool :=
  negb (has_char is_percent s) && negb (has_char is_dollar s)
  && negb (quote_open false s).

(** A tag is made of identifier characters; it may be empty. *)
Definition is_tag (tag : string) : bool :=
  negb (has_char (fun c => negb (is_ident_char c)) tag).

(** The closing delimiter [$tag$] does not start anywhere inside [body],
    [post] being the text behind the span. *)
Definition closes_only_at_end (tag body post : string) : Prop :=
  ∀ b1 b2 : string,
    body = b1 +:+ "$" +:+ b2 →
    String.prefix (tag +:+ "$") (b2 +:+ "$" +:+ tag +:+ "$" +:+ post) = false.

(** The statement texts of the claim, read off the text alone: plain SQL
    with matched dollar-quoted spans [$tag$ body $tag$] in it.  A [%] can
    only stand in a body. *)
Inductive dollar_quoted_only : string -> Prop :=
  | dq_plain (s : string) :
      plain_sql s = true → dollar_quoted_only s
  | dq_span (pre tag body post : string) :
      plain_sql pre = true →
      is_tag tag = true →
      closes_only_at_end tag body post →
      dollar_quoted_only post →
      dollar_quoted_only
        (pre +:+ "$" +:+ tag +:+ "$" +:+ body +:+ "$" +:+ tag +:+ "$" +:+ post).


(** Modelled from the spec: the placeholder analyzer behind [run_sql],
    which is not among the sources.  A supplied hint is trusted and switches
    the ambiguity detection off.  Without a hint the text is ambiguous as
    soon as it holds a [%] that is no recognised placeholder; a [%] inside a
    dollar-quoted span is literal content, never a placeholder, and so
    counts among these ("embedded inside a dollar-quoted procedural body",
    as the data model words it), which is what
    [test_server_parameters_function_def] observes. *)
Definition analyze (text : string) (serverBindsHint : option bool)
    : PlaceholderProfile :=
  let ms := marks text in
  {| clientStyle := if existsb is_client ms then Named else NoClientStyle;
     hasServerPercent :=
       match serverBindsHint with
       | Some b => b
       | None => existsb is_server ms
       end;
     ambiguous :=
       match serverBindsHint with
       | Some _ => false
       | None => existsb is_literal_percent ms
       end |}.

(** *** ExecutionPolicy *)

Inductive ExecutionPolicy := Silent | WarnDeprecated | Strict.

(** Modelled from the spec: the policy chosen from the two flags of
    [run_sql], [stop_on_error] (legacy) and [raise_errors]. *)
Definition resolve (requestedLegacyFlag requestedStrictFlag : bool)
    : ExecutionPolicy :=
  if requestedLegacyFlag then WarnDeprecated
  else if requestedStrictFlag then Strict
  else Silent.

(** *** CancellableExecutor *)

Inductive pvalue :=
  | PNull
  | PInt (z : Z)
  | PStr (s : string).

Definition Row := list (string * pvalue).

Record StatementSource := mkSource {
  kind : SourceKind;
  payload : value;
}.

Record ResolvedStatement := mkStatement {
  text : string;
  origin : StatementSource;
}.

Record ExecutionRequest := mkRequest {
  statement : ResolvedStatement;
  params : gmap string pvalue;
  policy : ExecutionPolicy;
  serverBindsHint : option bool;
}.

Inductive BackendErrorKind :=
  | SyntaxError
  | UndefinedObject
  | QueryCancelled
  | OtherBackendError (code : string).

Inductive Error :=
  | NotFound
  | ReadError
  | ParameterAmbiguityError
  | BackendExecutionError (subkind : BackendErrorKind).

Inductive Notice := DeprecationNotice.

(** What reaches the backend: the statement, whether it is handed to the
    driver for server-side binding, the parameters bound by the calling
    layer, and those left to the driver. *)
Record Submission := mkSubmission {
  stmt : string;
  server_side : bool;
  client_binds : gmap string pvalue;
  server_binds : gmap string pvalue;
}.

(** The connection handle, an external collaborator: it runs a submission
    and answers with rows or with a classified error. *)
Definition ConnectionHandle := Submission -> BackendErrorKind + list Row.

(** What a call leaves behind: the notices emitted, the failures recorded
    without being raised, and the rows returned or the error raised. *)
Record Outcome := mkOutcome {
  notices : list Notice;
  logged : list Error;
  result : Error + list Row;
}.

(** Modelled from the spec: the parameters whose key occurs among the
    placeholder names; the other keys are left out. *)
Definition bind_params (names : list string) (params : gmap string pvalue)
    : gmap string pvalue :=
  filter (fun kv => kv.1 ∈ names) params.

(** Modelled from the spec: what the executor sends for a statement with
    the given profile.  The profile says whether the text has server-style
    binds, a supplied hint being trusted for it; only then are parameters
    left to the driver, those named by a [%(name)s].  The parameters named
    by a [:name] are bound by the calling layer. *)
Definition submission (profile : PlaceholderProfile) (text : string)
    (params : gmap string pvalue) : Submission :=
  {| stmt := text;
     server_side := hasServerPercent profile;
     client_binds := bind_params (client_names text) params;
     server_binds :=
       if hasServerPercent profile
       then bind_params (server_names text) params
       else ∅ |}.

(** Modelled from the spec: the executor behind [Database.run_sql], which is
    not among the sources.  The notice of the legacy flag comes first; an
    ambiguous statement fails before the backend is called; only the
    parameters that occur as placeholders are bound; a backend failure is
    raised under [Strict] and [WarnDeprecated] and recorded under
    [Silent]. *)
Definition execute (conn : ConnectionHandle) (req : ExecutionRequest)
    : Outcome :=
  let ns := match policy req with
            | WarnDeprecated => [DeprecationNotice]
            | _ => []
            end in
  let sql := text (statement req) in
  let profile := analyze sql (serverBindsHint req) in
  if ambiguous profile
  then mkOutcome ns [] (inl ParameterAmbiguityError)
  else
    match conn (submission profile sql (params req)) with
    | inr rows => mkOutcome ns [] (inr rows)
    | inl k =>
        match policy req with
        | Silent => mkOutcome ns [BackendExecutionError k] (inr [])
        | _ => mkOutcome ns [] (inl (BackendExecutionError k))
        end
    end.

(** A statement given as inline text, and a request for it. *)
Definition inline (sql : string) : ResolvedStatement :=
  mkStatement sql (mkSource InlineText (VStr sql)).
Definition inline_request (sql : string) (params : gmap string pvalue)
    (policy : ExecutionPolicy) (hint : option bool) : ExecutionRequest :=
  mkRequest (inline sql) params policy hint.

(** *** Statements and backends of the tests *)

(** The statement of [test_server_parameters_function_def]. *)
Definition function_def_sql : string := "
    CREATE OR REPLACE FUNCTION throw_error()
    RETURNS void AS $$
    BEGIN
    IF true THEN
        RAISE NOTICE 'prop %s, pattern %, schema %', prop, pattern, schema->'patternProperties'->pattern;
    END IF;
    END;
    $$ LANGUAGE plpgsql;
    ".


(** A statement with a bare percent sign and no placeholder. *)
Definition modulo_sql : string := "SELECT 10 % 3".

(** The statements of [test_extraneous_argument] and [test_query_error]. *)
Definition insert_sample_sql : string :=
  "INSERT INTO sample (name) VALUES (:name)".
Definition select_samplea_sql : string :=
  "SELECT * FROM samplea WHERE name = :name".

(** A backend that accepts every submission, and one that knows no table. *)
Definition accepting_backend : ConnectionHandle := fun _ => inr [].
Definition no_table_backend : ConnectionHandle := fun _ => inl UndefinedObject.

(** A lexicon to evaluate examples with. *)
Definition example_lexicon : SqlLexicon :=
  {| sql_keywords_etc := ["UPDATE"; "DELETE"; "DROP"; "ALTER"];
     sql_extensions_etc := [];
     max_path_length := 255 |}.

End database.

(** ** Facts about the timer *)

Module timer_facts.
Import timer.

(** Closes a goal [∃ added, l = l ++ added] when nothing was added. *)
Ltac nothing_added := exists []; by rewrite app_nil_r.

Lemma last_cons_default {A} (x : A) (l : list A) :
  last (x :: l) = Some (default x (last l)).
Proof. rewrite last_cons. by destruct (last l). Qed.

Lemma slice_1_m1_inner {A} (x y : A) (l : list A) :
  slice_1_m1 (x :: l ++ [y]) = l.
Proof.
  unfold slice_1_m1. cbn [length drop].
  rewrite length_app. cbn [length].
  replace (S (length l + 1) - 1 - 1) with (length l) by lia.
  apply take_app_length.
Qed.

Lemma timings_of_insert_eq h ct tk self l :
  timings_of (mkState (<[self := l]> h) ct tk) self = l.
Proof. unfold timings_of; simpl. by rewrite lookup_insert_eq. Qed.

Lemma timings_of_insert_ne h ct tk self other l :
  self ≠ other →
  timings_of (mkState (<[self := l]> h) ct tk) other
  = default [] (h !! other).
Proof. intros Hne. unfold timings_of; simpl. by rewrite lookup_insert_ne. Qed.

(** [_add_step] on a timer that holds at least one record returns the new
    record and appends it. *)
Lemma _add_step_ok `{PyRuntime} self n s first rest :
  timings_of s self = first :: rest →
  _add_step self n s =
    (Ok (step_record n s first rest),
     mkState (<[self := first :: rest ++ [step_record n s first rest]]> (heap s))
             (code_timer s) (S (ticks s))).
Proof.
  intros Hl.
  unfold _add_step, bind, get_timings, index_last, perf_counter, index_0,
    append, ret.
  rewrite Hl, last_cons_default. simpl.
  unfold timings_of in *. cbn [heap code_timer ticks].
  rewrite Hl. cbn [heap code_timer ticks]. rewrite Hl. reflexivity.
Qed.

(** On the class-level empty list, [self.timings[-1]] raises before anything
    is written. *)
Lemma _add_step_empty `{PyRuntime} self n s :
  timings_of s self = [] →
  _add_step self n s = (Raise IndexError, s).
Proof.
  intros Hl.
  unfold _add_step, bind, get_timings, index_last, raise.
  by rewrite Hl.
Qed.

Lemma _add_step_appends `{PyRuntime} self n s other :
  ∃ added,
    timings_of (snd (_add_step self n s)) other = timings_of s other ++ added.
Proof.
  destruct (timings_of s self) as [|first rest] eqn:Hl.
  - rewrite (_add_step_empty _ _ _ Hl). nothing_added.
  - rewrite (_add_step_ok _ _ _ _ _ Hl). cbn [snd].
    destruct (decide (self = other)) as [<-|Hne].
    + exists [step_record n s first rest].
      by rewrite timings_of_insert_eq, Hl.
    + rewrite timings_of_insert_ne by done. nothing_added.
Qed.

(** The header's entries for a timer that holds [first :: steps]: one entry
    per step and the total, the [end] record being appended on the way. *)
Lemma server_timings_entries_ok `{PyRuntime} self s first steps :
  timings_of s self = first :: steps →
  server_timings_entries self s =
    (Ok (map (fun t => dur_entry (name t) (delta t)) steps
         ++ [dur_entry "total" (total (step_record "end" s first steps))]),
     mkState
       (<[self := first :: steps ++ [step_record "end" s first steps]]> (heap s))
       (code_timer s) (S (ticks s))).
Proof.
  intros Hl. unfold server_timings_entries, bind.
  rewrite (_add_step_ok _ _ _ _ _ Hl).
  unfold get_timings. rewrite !timings_of_insert_eq.
  rewrite slice_1_m1_inner.
  unfold index_last.
  change (first :: steps ++ [step_record "end" s first steps])
    with ((first :: steps) ++ [step_record "end" s first steps]).
  rewrite last_snoc. reflexivity.
Qed.

Lemma server_timings_ok `{PyRuntime} self s first steps :
  timings_of s self = first :: steps →
  server_timings self s =
    (Ok (join ", "
           (map (fun t => dur_entry (name t) (delta t)) steps
            ++ [dur_entry "total" (total (step_record "end" s first steps))])),
     mkState
       (<[self := first :: steps ++ [step_record "end" s first steps]]> (heap s))
       (code_timer s) (S (ticks s))).
Proof.
  intros Hl. unfold server_timings, bind.
  by rewrite (server_timings_entries_ok _ _ _ _ Hl).
Qed.

Lemma server_timings_empty `{PyRuntime} self s :
  timings_of s self = [] →
  server_timings self s = (Raise IndexError, s).
Proof.
  intros Hl. unfold server_timings, server_timings_entries, bind.
  by rewrite (_add_step_empty _ _ _ Hl).
Qed.

Lemma server_timings_appends `{PyRuntime} self s other :
  ∃ added,
    timings_of (snd (server_timings self s)) other = timings_of s other ++ added.
Proof.
  destruct (timings_of s self) as [|first rest] eqn:Hl.
  - rewrite (server_timings_empty _ _ Hl). nothing_added.
  - rewrite (server_timings_ok _ _ _ _ Hl). cbn [snd].
    destruct (decide (self = other)) as [<-|Hne].
    + exists [step_record "end" s first rest].
      by rewrite timings_of_insert_eq, Hl.
    + rewrite timings_of_insert_ne by done. nothing_added.
Qed.

Lemma add_step_appends `{PyRuntime} n s other :
  ∃ added,
    timings_of (snd (add_step n s)) other = timings_of s other ++ added.
Proof.
  unfold add_step. destruct (code_timer_get s) as [timer|].
  - destruct (_add_step_appends timer n s other) as [added Ha].
    exists added. unfold bind.
    destruct (_add_step timer n s) as [[rec|e] s']; exact Ha.
  - nothing_added.
Qed.

Lemma __init___ok `{PyRuntime} s :
  __init__ s =
    (Ok (fresh (dom (heap s))),
     mkState (<[fresh (dom (heap s)) :=
                  [mkTiming "start" 0 0 (perf_counter_at (ticks s))]]> (heap s))
             (code_timer s) (S (ticks s))).
Proof. reflexivity. Qed.

Lemma fresh_timings_of s : timings_of s (fresh (dom (heap s))) = [].
Proof.
  unfold timings_of.
  assert (heap s !! fresh (dom (heap s)) = None) as ->; [|done].
  apply not_elem_of_dom, is_fresh.
Qed.

Lemma __init___appends `{PyRuntime} s other :
  ∃ added,
    timings_of (snd (__init__ s)) other = timings_of s other ++ added.
Proof.
  rewrite __init___ok. cbn [snd].
  destruct (decide (fresh (dom (heap s)) = other)) as [<-|Hne].
  - eexists. rewrite timings_of_insert_eq, fresh_timings_of. reflexivity.
  - rewrite timings_of_insert_ne by done. nothing_added.
Qed.

(** Every call only appends, to every timer. *)
Lemma exec_op_appends `{PyRuntime} o s other :
  ∃ added, timings_of (exec_op o s) other = timings_of s other ++ added.
Proof.
  destruct o as [|n|self n|self|v|token]; cbn [exec_op].
  - apply __init___appends.
  - apply add_step_appends.
  - apply _add_step_appends.
  - apply server_timings_appends.
  - nothing_added.
  - nothing_added.
Qed.

Lemma exec_ops_appends `{PyRuntime} os s other :
  ∃ added, timings_of (exec_ops os s) other = timings_of s other ++ added.
Proof.
  revert s. induction os as [|o os IH]; intros s.
  - nothing_added.
  - cbn [exec_ops fold_left].
    destruct (IH (exec_op o s)) as [a2 H2].
    destruct (exec_op_appends o s other) as [a1 H1].
    exists (a1 ++ a2). unfold exec_ops in H2. rewrite H2, H1.
    by rewrite app_assoc.
Qed.

Lemma string_app_assoc (a b c : string) : (a +:+ b) +:+ c = a +:+ b +:+ c.
Proof.
  induction a as [|x a IH]; [reflexivity|].
  change (String x ((a +:+ b) +:+ c) = String x (a +:+ b +:+ c)).
  by rewrite IH.
Qed.

(** The last element of a joined list ends the joined string. *)
Lemma join_snoc sep (l : list string) (x : string) :
  ∃ before, join sep (l ++ [x]) = before +:+ x.
Proof.
  induction l as [|y l [before IH]].
  - by exists "".
  - exists (y +:+ sep +:+ before). unfold join in *.
    change ((y :: l) ++ [x]) with (y :: (l ++ [x])).
    cbn [String.concat]. destruct (l ++ [x]) as [|z l'] eqn:E.
    + by destruct l.
    + rewrite IH. by rewrite !string_app_assoc.
Qed.

(** *** The claims *)

(** C2 (as amended): [Timer.context] appends no record on any exit path.
    The outcome, the heap and the clock after the [with] block are those the
    body leaves, whether it returns or raises; the [end] record is appended
    by [server_timings], exactly one per call. *)
Theorem context_appends_no_record `{PyRuntime} {A} (self : ref)
    (body : ref → M A) (s : state) :
  fst (context self body s) = fst (body self (entered self s))
  ∧ heap (snd (context self body s)) = heap (snd (body self (entered self s)))
  ∧ ticks (snd (context self body s)) = ticks (snd (body self (entered self s)))
  ∧ (∀ (r : ref) (s0 : state) (first : Timing) (steps : list Timing),
       timings_of s0 r = first :: steps →
       ∃ end_rec,
         timings_of (snd (server_timings r s0)) r = first :: steps ++ [end_rec]
         ∧ name end_rec = "end").
Proof.
  unfold context, bind, try_finally, code_timer_set, code_timer_reset.
  change (mkState (heap s) (Some (Some self)) (ticks s)) with (entered self s).
  destruct (body self (entered self s)) as [r s2]. cbn [fst snd heap ticks].
  repeat split.
  intros r0 s0 first steps Hl. exists (step_record "end" s0 first steps).
  rewrite (server_timings_ok _ _ _ _ Hl). cbn [snd].
  by rewrite timings_of_insert_eq.
Qed.

(** C3: for a session that holds the start record and [steps], the header is
    the join by [", "] of one entry [name;dur=<ms>] per step, in order,
    followed by the entry [total;dur=<ms>], where [<ms>] is the text of the
    value times 1000 rounded to one decimal; so the header ends with the
    total entry. *)
Theorem server_timings_header `{PyRuntime} (self : ref) (s : state)
    (first : Timing) (steps : list Timing) :
  timings_of s self = first :: steps →
  ∃ (end_rec : Timing) (s' : state) (entries : list string),
    server_timings_entries self s = (Ok entries, s')
    ∧ server_timings self s = (Ok (String.concat ", " entries), s')
    ∧ timings_of s' self = first :: steps ++ [end_rec]
    ∧ total end_rec = (perf_counter_at (ticks s) - time first)%float
    ∧ entries =
        map (fun t => name t +:+ ";dur="
                      +:+ py_str_float (py_round (delta t * 1000) 1)) steps
        ++ ["total;dur=" +:+ py_str_float (py_round (total end_rec * 1000) 1)]
    ∧ length entries = S (length steps)
    ∧ last entries
      = Some ("total;dur=" +:+ py_str_float (py_round (total end_rec * 1000) 1))
    ∧ ∃ before,
        String.concat ", " entries
        = before +:+ "total;dur="
          +:+ py_str_float (py_round (total end_rec * 1000) 1).
Proof.
  intros Hl.
  exists (step_record "end" s first steps). eexists. eexists.
  split; [apply (server_timings_entries_ok _ _ _ _ Hl)|].
  split; [apply (server_timings_ok _ _ _ _ Hl)|].
  split; [by rewrite timings_of_insert_eq|].
  split; [done|].
  split; [done|].
  split; [rewrite length_app, length_map; cbn; lia|].
  split; [by rewrite last_snoc|].
  apply join_snoc.
Qed.

(** C4: [Timer.add_step] with no ambient session returns without raising
    and leaves the whole state as it was; with an ambient session, it
    appends exactly one record, named as asked, to that session and leaves
    every other timer alone. *)
Theorem add_step_ambient `{PyRuntime} (n : string) (s : state) :
  (code_timer_get s = None → add_step n s = (Ok tt, s))
  ∧ (∀ (timer : ref) (first : Timing) (rest : list Timing),
       code_timer_get s = Some timer →
       timings_of s timer = first :: rest →
       ∃ (rec : Timing) (s' : state),
         add_step n s = (Ok tt, s')
         ∧ name rec = n
         ∧ timings_of s' timer = first :: rest ++ [rec]
         ∧ (∀ other, other ≠ timer → timings_of s' other = timings_of s other)
         ∧ code_timer s' = code_timer s).
Proof.
  split.
  - intros Hnone. unfold add_step. by rewrite Hnone.
  - intros timer first rest Hamb Hl.
    exists (step_record n s first rest). eexists.
    split.
    { unfold add_step. rewrite Hamb. unfold bind.
      rewrite (_add_step_ok _ _ _ _ _ Hl). reflexivity. }
    split; [done|].
    split; [by rewrite timings_of_insert_eq|].
    split; [|done].
    intros other Hne. by rewrite timings_of_insert_ne.
Qed.

(** C6: a timer just created holds the single record [start] with delta and
    total zero, and after any sequence of calls ([Timer()], [add_step],
    [_add_step], [server_timings], [code_timer.set], [code_timer.reset])
    its list still begins with that same record; every call only appends to
    every timer's list. *)
Theorem start_record_first `{PyRuntime} (s : state) (os : list op) :
  ∃ (self : ref) (s1 : state) (t0 : float),
    __init__ s = (Ok self, s1)
    ∧ timings_of s1 self = [mkTiming "start" 0 0 t0]
    ∧ (∃ rest,
         timings_of (exec_ops os s1) self = mkTiming "start" 0 0 t0 :: rest)
    ∧ (∀ (o : op) (s' : state) (r : ref),
         ∃ added, timings_of (exec_op o s') r = timings_of s' r ++ added).
Proof.
  eexists. eexists. exists (perf_counter_at (ticks s)).
  split; [apply __init___ok|].
  split; [by rewrite timings_of_insert_eq|].
  split.
  - edestruct exec_ops_appends as [added Ha].
    exists added. rewrite Ha. by rewrite timings_of_insert_eq.
  - intros o s' r. apply exec_op_appends.
Qed.

(** C10: [Timer.context] makes [self] the ambient timer for the body and,
    whether the body returns or raises and whatever the body did to the
    variable, leaves [code_timer] exactly as it was before the block. *)
Theorem context_restores_ambient {A} (self : ref) (body : ref → M A)
    (s : state) :
  code_timer_get (entered self s) = Some self
  ∧ context self body s
    = (fst (body self (entered self s)),
       mkState (heap (snd (body self (entered self s))))
               (code_timer s)
               (ticks (snd (body self (entered self s)))))
  ∧ code_timer (snd (context self body s)) = code_timer s
  ∧ code_timer_get (snd (context self body s)) = code_timer_get s.
Proof.
  unfold context, bind, try_finally, code_timer_set, code_timer_reset,
    code_timer_get.
  change (mkState (heap s) (Some (Some self)) (ticks s)) with (entered self s).
  destruct (body self (entered self s)) as [r s2].
  by cbn [fst snd heap ticks code_timer entered].
Qed.

(** *** The claims at concrete sessions *)

(** C2 fails on the code: a session whose body records a step and then
    raises, and one whose body returns, both end with the records [start]
    and [query]; no [end] record has been appended. *)
Lemma context_end_step_counterexample :
  fst failing_session = Raise (Exception "boom")
  ∧ map name (timings_of (snd failing_session) 0) = ["start"; "query"]
  ∧ ¬ ends_with_end_step (timings_of (snd failing_session) 0)
  ∧ fst returning_session = Ok tt
  ∧ map name (timings_of (snd returning_session) 0) = ["start"; "query"]
  ∧ ¬ ends_with_end_step (timings_of (snd returning_session) 0).
Proof.
  split; [by vm_compute|]. split; [by vm_compute|].
  split; [|split; [by vm_compute|split; [by vm_compute|]]].
  - intros (rec & Hlast & Hname). vm_compute in Hlast.
    injection Hlast as <-. discriminate Hname.
  - intros (rec & Hlast & Hname). vm_compute in Hlast.
    injection Hlast as <-. discriminate Hname.
Qed.

(** Nested sessions: the step recorded outside every session is dropped,
    the inner body's step goes to the inner timer, and once the inner block
    has been left by an exception the outer timer is ambient again. *)
Example nested_sessions_run :
  fst (nested_sessions (H := example_runtime) initial_state) = Ok tt
  ∧ map name
      (timings_of (snd (nested_sessions (H := example_runtime) initial_state)) 0)
    = ["start"; "before"; "after"]
  ∧ map name
      (timings_of (snd (nested_sessions (H := example_runtime) initial_state)) 1)
    = ["start"; "query"]
  ∧ code_timer (snd (nested_sessions (H := example_runtime) initial_state))
    = None.
Proof. by vm_compute. Qed.

(** A whole session: two steps, then the header. *)
Example session_header_run :
  fst ((t <- __init__ (H := example_runtime) ;;
        context t (fun _ =>
          add_step (H := example_runtime) "parse" ;;;
          add_step (H := example_runtime) "query" ;;;
          server_timings (H := example_runtime) t)) initial_state)
  = Ok "parse;dur=<ms>, query;dur=<ms>, total;dur=<ms>".
Proof. by vm_compute. Qed.

(** [server_timings] called twice: the first [end] record is an
    intermediate step of the second header. *)
Example server_timings_twice :
  fst ((t <- __init__ (H := example_runtime) ;;
        server_timings (H := example_runtime) t ;;;
        server_timings (H := example_runtime) t) initial_state)
  = Ok "end;dur=<ms>, total;dur=<ms>".
Proof. by vm_compute. Qed.

(** The amended C2 at the session under way: [server_timings] appends the
    [end] record. *)
Lemma context_appends_no_record_witness :
  ∃ end_rec,
    timings_of (snd (server_timings (H := example_runtime) 0 session_state)) 0
    = [mkTiming "start" 0 0 0; mkTiming "query" 0.125 0.125 0.125; end_rec]
    ∧ name end_rec = "end".
Proof.
  destruct (context_appends_no_record (H := example_runtime) 0
              (failing_body (H := example_runtime)) initial_state)
    as (_ & _ & _ & Hend).
  apply (Hend 0 session_state (mkTiming "start" 0 0 0)
           [mkTiming "query" 0.125 0.125 0.125]).
  vm_compute. reflexivity.
Defined.

(** C3 at the session under way. *)
Lemma server_timings_header_witness :
  ∃ s',
    server_timings (H := example_runtime) 0 session_state
    = (Ok "query;dur=<ms>, total;dur=<ms>", s').
Proof.
  assert (timings_of session_state 0
          = [mkTiming "start" 0 0 0; mkTiming "query" 0.125 0.125 0.125])
    as Hl by (vm_compute; reflexivity).
  destruct (server_timings_header (H := example_runtime) 0 session_state _ _ Hl)
    as (e & s' & entries & _ & Hs & _ & Htot & Hent & _).
  exists s'. rewrite Hs, Hent, Htot. vm_compute. reflexivity.
Defined.

(** C4 at the initial state, where no session is ambient, and at the
    session under way. *)
Lemma add_step_ambient_witness :
  add_step (H := example_runtime) "query" initial_state = (Ok tt, initial_state)
  ∧ ∃ rec s',
      add_step (H := example_runtime) "parse" session_state = (Ok tt, s')
      ∧ name rec = "parse"
      ∧ timings_of s' 0
        = [mkTiming "start" 0 0 0; mkTiming "query" 0.125 0.125 0.125; rec].
Proof.
  split.
  - apply (proj1 (add_step_ambient (H := example_runtime) "query" initial_state)).
    reflexivity.
  - assert (code_timer_get session_state = Some 0) as Hamb
      by (vm_compute; reflexivity).
    assert (timings_of session_state 0
            = [mkTiming "start" 0 0 0; mkTiming "query" 0.125 0.125 0.125])
      as Hl by (vm_compute; reflexivity).
    destruct (proj2 (add_step_ambient (H := example_runtime) "parse"
                       session_state) 0 _ _ Hamb Hl)
      as (rec & s' & H1 & H2 & H3 & _).
    exists rec, s'. auto.
Defined.

End timer_facts.

(** ** Facts about the statement-execution layer *)

Module database_facts.
Import database.

Lemma contains_unfold (needle s : string) :
  contains needle s =
  String.prefix needle s
  || match s with
     | EmptyString => false
     | String _ s' => contains needle s'
     end.
Proof. by destruct s. Qed.

Lemma prefix_app (k b : string) : String.prefix k (k +:+ b) = true.
Proof.
  induction k as [|x k IH]; [by destruct b|].
  change (String x k +:+ b) with (String x (k +:+ b)).
  cbn [String.prefix]. by destruct (ascii_dec x x).
Qed.

(** The check [contains] finds every occurrence. *)
Lemma contains_app (a k b : string) : contains k (a +:+ k +:+ b) = true.
Proof.
  induction a as [|x a IH].
  - change ("" +:+ k +:+ b) with (k +:+ b).
    rewrite contains_unfold, prefix_app. done.
  - change (String x a +:+ k +:+ b) with (String x (a +:+ k +:+ b)).
    rewrite contains_unfold, IH. apply orb_true_r.
Qed.

Lemma has_char_app (p : ascii → bool) (a b : string) (c : ascii) :
  p c = true → has_char p (a +:+ String c b) = true.
Proof.
  intros Hc. induction a as [|x a IH].
  - change ("" +:+ String c b) with (String c b). cbn [has_char].
    by rewrite Hc.
  - change (String x a +:+ String c b) with (String x (a +:+ String c b)).
    cbn [has_char]. rewrite IH. apply orb_true_r.
Qed.

Lemma existsb_forallb_negb {A} (f : A → bool) (l : list A) :
  forallb (fun x => negb (f x)) l = true → existsb f l = false.
Proof.
  induction l as [|x l IH]; [done|]. cbn [forallb existsb].
  intros [Hx Hl]%andb_true_iff. rewrite IH by done.
  by destruct (f x).
Qed.

Lemma classify_keyword `{SqlLexicon} (s : string) :
  has_sql_keyword s = true → classify (VStr s) = InlineText.
Proof. intros Hk. unfold classify. by rewrite Hk. Qed.

Lemma classify_newline `{SqlLexicon} (s : string) :
  has_newline s = true → classify (VStr s) = InlineText.
Proof. intros Hn. unfold classify. rewrite Hn, orb_true_r. done. Qed.

(** Only the names that occur as placeholders matter to [bind_params]. *)
Lemma bind_params_union (names : list string)
    (params extras : gmap string pvalue) :
  (∀ k, k ∈ dom extras → k ∉ names) →
  bind_params names (params ∪ extras) = bind_params names params.
Proof.
  intros Hextra. unfold bind_params.
  apply map_eq. intros k. apply option_eq. intros v.
  rewrite !map_lookup_filter_Some. cbn [fst].
  rewrite lookup_union_Some_raw.
  split.
  - intros [[Hp|[_ He]] Hin]; [done|].
    exfalso. apply (Hextra k); [|done].
    apply elem_of_dom. by exists v.
  - intros [Hp Hin]. split; [by left | done].
Qed.

Lemma submission_union (profile : PlaceholderProfile) (sql : string)
    (params extras : gmap string pvalue) :
  (∀ k, k ∈ dom extras → (k ∉ client_names sql) ∧ (k ∉ server_names sql)) →
  submission profile sql (params ∪ extras) = submission profile sql params.
Proof.
  intros Hextra. unfold submission.
  rewrite !bind_params_union; [done| |]; intros k Hk; by apply Hextra.
Qed.

(** A key that is no placeholder name is not bound. *)
Lemma bind_params_lookup_other (names : list string)
    (params : gmap string pvalue) (k : string) :
  k ∉ names → bind_params names params !! k = None.
Proof.
  intros Hk. unfold bind_params. apply map_lookup_filter_None.
  right. intros v _ Hin. by apply Hk.
Qed.


(** *** The lexer on plain SQL and dollar-quoted spans *)












(** A body without a dollar sign cannot hold the closing delimiter. *)
Lemma no_dollar_closes_only_at_end (tag body post : string) :
  has_char is_dollar body = false → closes_only_at_end tag body post.
Proof.
  intros Hd b1 b2 ->.
  change (b1 +:+ "$" +:+ b2) with (b1 +:+ String "$" b2) in Hd.
  rewrite (has_char_app is_dollar b1 b2 "$" eq_refl) in Hd.
  discriminate Hd.
Qed.












(** [execute] on a request given by its fields. *)
Lemma execute_request (conn : ConnectionHandle) (st : ResolvedStatement)
    (params : gmap string pvalue) (policy : ExecutionPolicy)
    (hint : option bool) :
  execute conn (mkRequest st params policy hint) =
  let ns := match policy with
            | WarnDeprecated => [DeprecationNotice]
            | _ => []
            end in
  if ambiguous (analyze (text st) hint)
  then mkOutcome ns [] (inl ParameterAmbiguityError)
  else
    match conn (submission (analyze (text st) hint) (text st) params) with
    | inr rows => mkOutcome ns [] (inr rows)
    | inl k =>
        match policy with
        | Silent => mkOutcome ns [BackendExecutionError k] (inr [])
        | _ => mkOutcome ns [] (inl (BackendExecutionError k))
        end
    end.
Proof. reflexivity. Qed.

(** *** The claims *)


(** C5: ["sample.sql"] is classified as a path and
    ["SELECT * FROM sample"] as inline text, and no string that holds a
    keyword, in any case, or a newline is classified as a path. *)
Theorem classify_conservative `{SqlLexicon} :
  forallb (fun k => negb (contains (upper k) "SAMPLE.SQL")) sql_keywords_etc
    = true →
  (10 ≤ max_path_length)%nat →
  classify (VStr "sample.sql") = FilePath
  ∧ infer_is_sql_text (VStr "sample.sql") = false
  ∧ classify (VStr "SELECT * FROM sample") = InlineText
  ∧ infer_is_sql_text (VStr "SELECT * FROM sample") = true
  ∧ (∀ s : string,
       (∃ k a b, k ∈ sql_keywords ∧ upper s = a +:+ upper k +:+ b)
       ∨ (∃ a b, s = a +:+ String newline b) →
       classify (VStr s) ≠ FilePath ∧ infer_is_sql_text (VStr s) = true).
Proof.
  intros Hetc Hlen.
  assert (classify (VStr "sample.sql") = FilePath) as Hpath.
  { unfold classify, has_sql_keyword, sql_keywords.
    cbn [existsb].
    change (upper "sample.sql") with "SAMPLE.SQL".
    rewrite (existsb_forallb_negb _ _ Hetc).
    replace (contains (upper "SELECT") "SAMPLE.SQL") with false by done.
    replace (contains (upper "INSERT") "SAMPLE.SQL") with false by done.
    replace (contains (upper "CREATE") "SAMPLE.SQL") with false by done.
    replace (has_newline "sample.sql") with false by done.
    cbn [orb].
    unfold path_shape, sql_extensions. cbn [existsb].
    replace (has_char is_space "sample.sql") with false by done.
    replace (ends_with ".sql" "sample.sql") with true by done.
    replace (String.length "sample.sql") with 10 by done.
    cbn [negb orb andb].
    by rewrite (proj2 (Nat.leb_le _ _) Hlen). }
  assert (classify (VStr "SELECT * FROM sample") = InlineText) as Htext.
  { apply classify_keyword. unfold has_sql_keyword, sql_keywords.
    cbn [existsb].
    by replace (contains (upper "SELECT") (upper "SELECT * FROM sample"))
      with true by done. }
  split; [done|]. split; [unfold infer_is_sql_text; by rewrite Hpath|].
  split; [done|]. split; [unfold infer_is_sql_text; by rewrite Htext|].
  intros s Hs.
  assert (classify (VStr s) = InlineText) as Hc.
  { destruct Hs as [(k & a & b & Hk & Hocc)|(a & b & ->)].
    - apply classify_keyword. unfold has_sql_keyword.
      apply existsb_exists. exists k.
      split; [by apply list_elem_of_In|].
      rewrite Hocc. apply contains_app.
    - apply classify_newline. unfold has_newline.
      apply has_char_app. apply Ascii.eqb_refl. }
  unfold infer_is_sql_text. rewrite Hc. done.
Qed.

(** C7 (as amended): for a request whose statement passes the analysis (is
    not ambiguous) and whose parameters hold extra keys that are no
    placeholder of the statement, the extra keys are ignored: none of them
    reaches the backend, the call does exactly what it does without them
    under every policy, and under the default policy it returns rows and
    raises nothing, whatever the backend answers. *)
Theorem extra_params_ignored (conn : ConnectionHandle)
    (st : ResolvedStatement) (params extras : gmap string pvalue)
    (hint : option bool) :
  (∀ k, k ∈ dom extras →
        (k ∉ client_names (text st)) ∧ (k ∉ server_names (text st))) →
  ambiguous (analyze (text st) hint) = false →
  (∀ k, k ∈ dom extras →
        client_binds
          (submission (analyze (text st) hint) (text st) (params ∪ extras))
        !! k = None
        ∧ server_binds
            (submission (analyze (text st) hint) (text st) (params ∪ extras))
          !! k = None)
  ∧ (∀ policy,
       execute conn (mkRequest st (params ∪ extras) policy hint)
       = execute conn (mkRequest st params policy hint))
  ∧ (∃ rows,
       result (execute conn
                 (mkRequest st (params ∪ extras) (resolve false false) hint))
       = inr rows).
Proof.
  intros Hextra Hna. split; [|split].
  - intros k Hk. destruct (Hextra k Hk) as [Hc Hs].
    unfold submission. cbn [client_binds server_binds].
    split; [by apply bind_params_lookup_other|].
    destruct (hasServerPercent _); [|by rewrite lookup_empty].
    by apply bind_params_lookup_other.
  - intros policy. rewrite !execute_request.
    by rewrite (submission_union _ _ _ _ Hextra).
  - unfold resolve. rewrite execute_request, Hna. cbn zeta.
    destruct (conn _) as [k|rows]; eauto.
Qed.

(** C8: when the backend fails with an error of kind [k], the call under
    the legacy flag raises the backend error of that same kind, as the call
    under the strict flag does, and emits the deprecation notice, which the
    strict call does not; every call under the legacy policy emits the
    notice exactly once, whatever the statement and its fate, and raises or
    returns what the strict call does. *)
Theorem legacy_flag_warns_and_raises (conn : ConnectionHandle)
    (st : ResolvedStatement) (params : gmap string pvalue)
    (hint : option bool) (k : BackendErrorKind) :
  ambiguous (analyze (text st) hint) = false →
  conn (submission (analyze (text st) hint) (text st) params) = inl k →
  result (execute conn (mkRequest st params (resolve true false) hint))
    = inl (BackendExecutionError k)
  ∧ result (execute conn (mkRequest st params (resolve false true) hint))
    = inl (BackendExecutionError k)
  ∧ notices (execute conn (mkRequest st params (resolve true false) hint))
    = [DeprecationNotice]
  ∧ notices (execute conn (mkRequest st params (resolve false true) hint))
    = []
  ∧ (∀ conn' st' params' hint',
       notices (execute conn' (mkRequest st' params' WarnDeprecated hint'))
       = [DeprecationNotice]
       ∧ result (execute conn' (mkRequest st' params' WarnDeprecated hint'))
         = result (execute conn' (mkRequest st' params' Strict hint'))).
Proof.
  intros Hna Hfail.
  unfold resolve. rewrite !execute_request, Hna, Hfail. cbn.
  do 4 (split; [reflexivity|]).
  intros conn' st' params' hint'. rewrite !execute_request. cbn zeta.
  destruct (ambiguous (analyze (text st') hint')); [by split|].
  destruct (conn' (submission (analyze (text st') hint') (text st') params'));
    by split.
Qed.

(** *** The claims at the statements of the tests *)

(** What the lexer reports on the statements of the tests. *)
Example marks_function_def :
  marks function_def_sql
  = [LiteralPercent true; LiteralPercent true; LiteralPercent true].
Proof. reflexivity. Qed.

Example marks_server_bound :
  marks "SELECT name FROM sample WHERE name = %(name)s" = [ServerNamed "name"]
  ∧ ambiguous (analyze "SELECT name FROM sample WHERE name = %(name)s" None)
    = false.
Proof. by vm_compute. Qed.

Example marks_mixed :
  marks "SELECT a::int, ':x' FROM t WHERE n = :n AND b = %s AND c LIKE '10%' $f$ %s :y $f$"
  = [ClientNamed "n"; ServerPositional; LiteralPercent false;
     LiteralPercent true].
Proof. reflexivity. Qed.

(** [test_sql_text_inference_2]: a byte string is never a path. *)
Example infer_bytes (b : list Byte.byte) :
  infer_is_sql_text (H := example_lexicon) (VBytes b) = true.
Proof. reflexivity. Qed.

(** Two spans, one tagged, around a quoted string: both percent signs are
    literal content, and [:y] inside the span is no placeholder. *)
Example dollar_quoted_two_spans :
  dollar_quoted_only "SELECT 'a', $f$ 100% :y $f$, $$ %s $$ WHERE n = :n"
  ∧ marks "SELECT 'a', $f$ 100% :y $f$, $$ %s $$ WHERE n = :n"
    = [LiteralPercent true; LiteralPercent true; ClientNamed "n"].
Proof.
  split; [|reflexivity].
  apply (dq_span "SELECT 'a', " "f" " 100% :y " ", $$ %s $$ WHERE n = :n");
    [reflexivity | reflexivity
    | apply no_dollar_closes_only_at_end; reflexivity |].
  apply (dq_span ", " "" " %s " " WHERE n = :n");
    [reflexivity | reflexivity
    | apply no_dollar_closes_only_at_end; reflexivity |].
  apply dq_plain. reflexivity.
Qed.



(** C5 under the example lexicon. *)
Lemma classify_conservative_witness :
  classify (H := example_lexicon) (VStr "sample.sql") = FilePath
  ∧ classify (H := example_lexicon) (VStr "SELECT * FROM sample") = InlineText
  ∧ classify (H := example_lexicon) (VStr "create_tables.sql") ≠ FilePath
  ∧ classify (H := example_lexicon) (VStr (String newline "tables.sql"))
    ≠ FilePath.
Proof.
  assert (10 ≤ 255)%nat as Hlen by lia.
  destruct (classify_conservative (H := example_lexicon) eq_refl Hlen)
    as (H1 & _ & H3 & _ & H5).
  split; [exact H1|]. split; [exact H3|]. split.
  - apply H5. left. exists "CREATE", "", "_TABLES.SQL".
    split; [|reflexivity].
    apply list_elem_of_further, list_elem_of_further, list_elem_of_here.
  - apply H5. right. exists "", "tables.sql". reflexivity.
Defined.

(** C7 fails on the code: a statement with a bare [%] and no placeholder,
    sent with one extra key under the default policy and no hint, fails
    with [ParameterAmbiguityError]; the default policy silences backend
    failures only. *)
Lemma extra_key_ambiguous_statement_fails :
  client_names modulo_sql = []
  ∧ server_names modulo_sql = []
  ∧ dom ({[ "extraneous" := PStr "TestA" ]} : gmap string pvalue)
    = {[ "extraneous" ]}
  ∧ result (execute accepting_backend
              (inline_request modulo_sql {[ "extraneous" := PStr "TestA" ]}
                 (resolve false false) None))
    = inl ParameterAmbiguityError.
Proof.
  split; [reflexivity|]. split; [reflexivity|].
  split; [apply dom_singleton_L|]. by vm_compute.
Qed.

(** The amended C7 at the request of [test_extraneous_argument], against a
    backend that fails: the extra key is not sent, and the call returns as
    it does without it. *)
Lemma extra_params_ignored_witness :
  {[ "name" := PStr "Test2" ]} ∪ {[ "extraneous" := PStr "TestA" ]}
    = ({[ "name" := PStr "Test2"; "extraneous" := PStr "TestA" ]}
       : gmap string pvalue)
  ∧ client_binds
      (submission (analyze insert_sample_sql None) insert_sample_sql
         ({[ "name" := PStr "Test2" ]} ∪ {[ "extraneous" := PStr "TestA" ]}))
    !! "extraneous" = None
  ∧ execute no_table_backend
      (inline_request insert_sample_sql
         ({[ "name" := PStr "Test2" ]} ∪ {[ "extraneous" := PStr "TestA" ]})
         Silent None)
    = execute no_table_backend
        (inline_request insert_sample_sql {[ "name" := PStr "Test2" ]}
           Silent None)
  ∧ ∃ rows,
      result (execute no_table_backend
                (inline_request insert_sample_sql
                   ({[ "name" := PStr "Test2" ]}
                    ∪ {[ "extraneous" := PStr "TestA" ]})
                   (resolve false false) None))
      = inr rows.
Proof.
  split; [by vm_compute|].
  assert (∀ k : string,
            k ∈ dom ({[ "extraneous" := PStr "TestA" ]} : gmap string pvalue) →
            (k ∉ client_names insert_sample_sql)
            ∧ (k ∉ server_names insert_sample_sql)) as Hextra.
  { intros k Hk. rewrite dom_singleton_L in Hk.
    apply elem_of_singleton in Hk. subst k.
    change (client_names insert_sample_sql) with ["name"].
    change (server_names insert_sample_sql) with (@nil string).
    split; [|apply not_elem_of_nil].
    apply not_elem_of_cons. split; [discriminate | apply not_elem_of_nil]. }
  assert (ambiguous (analyze insert_sample_sql None) = false) as Hna
    by (vm_compute; reflexivity).
  destruct (extra_params_ignored no_table_backend (inline insert_sample_sql)
              {[ "name" := PStr "Test2" ]} _ None Hextra Hna)
    as (Hnone & Hsame & Hok).
  split.
  { apply Hnone. rewrite dom_singleton_L. by apply elem_of_singleton. }
  split; [apply Hsame | exact Hok].
Defined.

(** C8 at the request of [test_query_error]. *)
Lemma legacy_flag_warns_and_raises_witness :
  result (execute no_table_backend
            (inline_request select_samplea_sql {[ "name" := PStr "Test" ]}
               (resolve true false) None))
    = inl (BackendExecutionError UndefinedObject)
  ∧ notices (execute no_table_backend
               (inline_request select_samplea_sql {[ "name" := PStr "Test" ]}
                  (resolve true false) None))
    = [DeprecationNotice].
Proof.
  assert (ambiguous (analyze select_samplea_sql None) = false) as Hna
    by (vm_compute; reflexivity).
  destruct (legacy_flag_warns_and_raises no_table_backend
              (inline select_samplea_sql)
              {[ "name" := PStr "Test" ]} None UndefinedObject Hna eq_refl)
    as (Hl & _ & Hn & _).
  split; [exact Hl | exact Hn].
Defined.

End database_facts.

(** ** Sessions: how the calls compose *)

Module timer_sessions.
Import timer timer_facts.

(** [add_step] with an ambient timer that holds a record. *)
Lemma add_step_ok `{PyRuntime} n s timer first rest :
  code_timer_get s = Some timer →
  timings_of s timer = first :: rest →
  add_step n s =
    (Ok tt,
     mkState (<[timer := first :: rest ++ [step_record n s first rest]]> (heap s))
             (code_timer s) (S (ticks s))).
Proof.
  intros Hamb Hl. unfold add_step. rewrite Hamb. unfold bind.
  by rewrite (_add_step_ok _ _ _ _ _ Hl).
Qed.

(** The loop of [add_steps] on the ambient timer. *)
Lemma add_steps_ok `{PyRuntime} names : ∀ s timer first rest,
  code_timer_get s = Some timer →
  timings_of s timer = first :: rest →
  ∃ s',
    add_steps names s = (Ok tt, s')
    ∧ timings_of s' timer
      = first :: rest
        ++ step_records (ticks s) first (default first (last rest)) names
    ∧ (∀ other, other ≠ timer → timings_of s' other = timings_of s other)
    ∧ code_timer s' = code_timer s
    ∧ ticks s' = ticks s + length names.
Proof.
  induction names as [|n ns IH]; intros s timer first rest Hamb Hl.
  - exists s. cbn [add_steps step_records length].
    rewrite app_nil_r, Nat.add_0_r. done.
  - cbn [add_steps]. unfold bind at 1.
    rewrite (add_step_ok _ _ _ _ _ Hamb Hl).
    set (rec := step_record n s first rest).
    set (s1 := mkState _ _ _).
    assert (code_timer_get s1 = Some timer) as Hamb1 by exact Hamb.
    assert (timings_of s1 timer = first :: (rest ++ [rec])) as Hl1
      by apply timings_of_insert_eq.
    destruct (IH s1 timer first (rest ++ [rec]) Hamb1 Hl1)
      as (s' & Hrun & Hl' & Hframe & Hct & Htk).
    exists s'. split; [exact Hrun|].
    split.
    { rewrite Hl', last_snoc. cbn [default step_records ticks s1].
      rewrite <- app_assoc. reflexivity. }
    split.
    { intros other Hne. rewrite (Hframe other Hne).
      unfold s1. by rewrite timings_of_insert_ne. }
    split; [by rewrite Hct|].
    rewrite Htk. cbn [ticks s1 length]. lia.
Qed.

Lemma step_records_names `{PyRuntime} names : ∀ tick first prev,
  map name (step_records tick first prev names) = names.
Proof.
  induction names as [|n ns IH]; intros tick first prev; [done|].
  cbn [step_records map name]. by rewrite IH.
Qed.

Lemma step_records_times `{PyRuntime} names : ∀ tick first prev,
  map time (step_records tick first prev names)
  = map perf_counter_at (seq tick (length names)).
Proof.
  induction names as [|n ns IH]; intros tick first prev; [done|].
  cbn [step_records map time length seq]. by rewrite IH.
Qed.

(** The entries of the records of [step_records], by clock readings. *)
Lemma step_records_entries `{PyRuntime} names : ∀ tick first prev,
  time prev = perf_counter_at tick →
  map (fun t => dur_entry (name t) (delta t))
      (step_records (S tick) first prev names)
  = imap (fun i n =>
            dur_entry n (perf_counter_at (S (tick + i))
                         - perf_counter_at (tick + i))) names.
Proof.
  induction names as [|n ns IH]; intros tick first prev Hprev; [done|].
  cbn [step_records map name delta imap]. rewrite Hprev, Nat.add_0_r.
  f_equal. rewrite IH by done.
  apply imap_ext. intros i x _. cbn.
  by rewrite Nat.add_succ_r.
Qed.

(** Appending a record built as [_add_step] builds it keeps the chain. *)
Lemma well_timed_snoc (first : Timing) (rest : list Timing) (x : Timing) :
  well_timed (first :: rest) →
  delta x = (time x - time (default first (last rest)))%float →
  total x = (time x - time first)%float →
  well_timed (first :: rest ++ [x]).
Proof.
  intros Hw Hd Ht i start prev r H0 Hi HSi.
  injection H0 as <-.
  change (first :: rest ++ [x]) with ((first :: rest) ++ [x]) in Hi, HSi.
  set (l := first :: rest) in *.
  apply lookup_snoc_Some in HSi as [[Hlt HSi]|[Hlen ->]].
  - rewrite lookup_app_l in Hi by lia.
    by apply (Hw i first prev r).
  - rewrite lookup_app_l in Hi by lia.
    assert (last l = Some prev) as Hlast.
    { rewrite last_lookup, <- Hlen. exact Hi. }
    unfold l in Hlast. rewrite last_cons_default in Hlast.
    injection Hlast as <-. done.
Qed.

(** What a call does to the state: nothing to the heap, or one record
    appended to the timer it names or finds ambient, or a new timer. *)
Lemma exec_op_cases `{PyRuntime} (o : op) (s : state) :
  heap (exec_op o s) = heap s
  ∨ (∃ r n first rest,
       timings_of s r = first :: rest
       ∧ exec_op o s
         = mkState
             (<[r := first :: rest ++ [step_record n s first rest]]> (heap s))
             (code_timer s) (S (ticks s))
       ∧ (o = SelfAddStep r n ∨ o = ServerTimings r
          ∨ (o = AddStep n ∧ code_timer_get s = Some r)))
  ∨ (o = NewTimer
     ∧ exec_op o s
       = mkState
           (<[fresh (dom (heap s)) :=
                [mkTiming "start" 0 0 (perf_counter_at (ticks s))]]> (heap s))
           (code_timer s) (S (ticks s))).
Proof.
  destruct o as [|n|self n|self|v|token]; cbn [exec_op].
  - right; right. by rewrite __init___ok.
  - unfold add_step. destruct (code_timer_get s) as [timer|] eqn:Hamb;
      [|by left].
    destruct (timings_of s timer) as [|first rest] eqn:Hl.
    + left. unfold bind. by rewrite (_add_step_empty _ _ _ Hl).
    + right; left. exists timer, n, first, rest. unfold bind.
      rewrite (_add_step_ok _ _ _ _ _ Hl). cbn [snd]. auto 10.
  - destruct (timings_of s self) as [|first rest] eqn:Hl.
    + left. by rewrite (_add_step_empty _ _ _ Hl).
    + right; left. exists self, n, first, rest.
      rewrite (_add_step_ok _ _ _ _ _ Hl). cbn [snd]. auto 10.
  - destruct (timings_of s self) as [|first rest] eqn:Hl.
    + left. by rewrite (server_timings_empty _ _ Hl).
    + right; left. exists self, "end", first, rest.
      rewrite (server_timings_ok _ _ _ _ Hl). cbn [snd]. auto 10.
  - by left.
  - by left.
Qed.

Lemma timings_of_heap s s' r :
  heap s' = heap s → timings_of s' r = timings_of s r.
Proof. unfold timings_of. by intros ->. Qed.

Lemma exec_op_well_timed `{PyRuntime} (o : op) (s : state) (r : ref) :
  well_timed (timings_of s r) → well_timed (timings_of (exec_op o s) r).
Proof.
  intros Hw.
  destruct (exec_op_cases o s)
    as [Hh|[(t & n & first & rest & Hl & -> & _)|[_ ->]]].
  - by rewrite (timings_of_heap _ _ _ Hh).
  - destruct (decide (t = r)) as [->|Hne].
    + rewrite timings_of_insert_eq. rewrite Hl in Hw.
      by apply well_timed_snoc.
    + by rewrite timings_of_insert_ne.
  - destruct (decide (fresh (dom (heap s)) = r)) as [<-|Hne].
    + rewrite timings_of_insert_eq.
      intros i start prev x _ _ Hx. by destruct i.
    + by rewrite timings_of_insert_ne.
Qed.

Lemma exec_ops_well_timed `{PyRuntime} (os : list op) : ∀ (s : state) (r : ref),
  well_timed (timings_of s r) → well_timed (timings_of (exec_ops os s) r).
Proof.
  induction os as [|o os IH]; intros s r Hw; [done|].
  cbn [exec_ops fold_left]. apply (IH (exec_op o s)).
  by apply exec_op_well_timed.
Qed.

(** Only [code_timer.set] and [code_timer.reset] write the variable. *)
Lemma exec_op_code_timer `{PyRuntime} (o : op) (s : state) :
  code_timer (exec_op o s)
  = match o with
    | SetAmbient v => Some v
    | ResetAmbient token => token
    | _ => code_timer s
    end.
Proof.
  destruct o as [|n|self n|self|v|token]; cbn [exec_op]; try done.
  - unfold add_step. destruct (code_timer_get s) as [timer|]; [|done].
    unfold bind. destruct (timings_of s timer) as [|first rest] eqn:Hl.
    + by rewrite (_add_step_empty _ _ _ Hl).
    + by rewrite (_add_step_ok _ _ _ _ _ Hl).
  - destruct (timings_of s self) as [|first rest] eqn:Hl.
    + by rewrite (_add_step_empty _ _ _ Hl).
    + by rewrite (_add_step_ok _ _ _ _ _ Hl).
  - destruct (timings_of s self) as [|first rest] eqn:Hl.
    + by rewrite (server_timings_empty _ _ Hl).
    + by rewrite (server_timings_ok _ _ _ _ Hl).
Qed.

(** A timer that is allocated, not ambient and avoided by a call is left
    as it was, and stays allocated and not ambient. *)
Lemma exec_op_avoids `{PyRuntime} (b : ref) (o : op) (s : state) :
  op_avoids b o = true →
  b ∈ dom (heap s) →
  code_timer_get s ≠ Some b →
  timings_of (exec_op o s) b = timings_of s b
  ∧ b ∈ dom (heap (exec_op o s))
  ∧ code_timer_get (exec_op o s) ≠ Some b.
Proof.
  intros Hav Hdom Hamb.
  assert (code_timer_get (exec_op o s) ≠ Some b) as Hamb'.
  { unfold code_timer_get in *. rewrite exec_op_code_timer.
    destruct o as [|n|self n|self|v|token]; try exact Hamb;
      cbn [op_avoids] in Hav; apply bool_decide_eq_true in Hav.
    - exact Hav.
    - destruct token as [v|]; [|done]. intros ->. by apply Hav. }
  split; [|split; [|exact Hamb']].
  - destruct (exec_op_cases o s)
      as [Hh|[(t & n & first & rest & Hl & Hs & Ho)|[-> Hs]]].
    + by apply timings_of_heap.
    + assert (t ≠ b) as Hne.
      { destruct Ho as [->|[->|[-> Ht]]]; cbn [op_avoids] in Hav.
        - by apply bool_decide_eq_true in Hav.
        - by apply bool_decide_eq_true in Hav.
        - intros ->. by apply Hamb. }
      rewrite Hs. by rewrite timings_of_insert_ne.
    + rewrite Hs.
      assert (fresh (dom (heap s)) ≠ b) as Hne.
      { intros <-. by apply (is_fresh (dom (heap s))). }
      by rewrite timings_of_insert_ne.
  - destruct (exec_op_cases o s)
      as [Hh|[(t & n & first & rest & Hl & Hs & Ho)|[-> Hs]]].
    + by rewrite Hh.
    + rewrite Hs. cbn [heap]. rewrite dom_insert_L.
      apply elem_of_union. by right.
    + rewrite Hs. cbn [heap]. rewrite dom_insert_L.
      apply elem_of_union. by right.
Qed.

(** *** What sessions guarantee *)

(** X1: a timed request.  Whatever the state it starts in, creating a timer,
    recording one step per name inside its context and rendering the header
    returns one entry per name, in order, whose duration is the difference
    of two consecutive clock readings, and a total that is the last reading
    minus the first; the timer then holds [start], the names and [end], no
    other timer is touched, the ambient variable is as before and the clock
    has been read once per record. *)
Theorem timed_session_header `{PyRuntime} (names : list string) (s : state) :
  ∃ s',
    timed_session names s
    = (Ok (String.concat ", "
             (imap (fun i n =>
                      n +:+ ";dur="
                      +:+ py_str_float
                            (py_round ((perf_counter_at (S (ticks s + i))
                                        - perf_counter_at (ticks s + i))
                                       * 1000) 1)) names
              ++ ["total;dur="
                  +:+ py_str_float
                        (py_round ((perf_counter_at (S (ticks s + length names))
                                    - perf_counter_at (ticks s)) * 1000) 1)])),
       s')
    ∧ map name (timings_of s' (fresh (dom (heap s))))
      = "start" :: names ++ ["end"]
    ∧ (∀ other, other ≠ fresh (dom (heap s)) →
                timings_of s' other = timings_of s other)
    ∧ code_timer s' = code_timer s
    ∧ ticks s' = ticks s + length names + 2.
Proof.
  unfold timed_session. unfold bind at 1. rewrite __init___ok.
  set (self := fresh (dom (heap s))).
  set (start := mkTiming "start" 0 0 (perf_counter_at (ticks s))).
  unfold context, bind at 1, code_timer_set, try_finally, code_timer_reset.
  cbn [heap code_timer ticks].
  lazymatch goal with
  | |- context [bind (add_steps names) _ ?st] => set (s1 := st)
  end.
  assert (code_timer_get s1 = Some self) as Hamb by done.
  assert (timings_of s1 self = [start]) as Hl1 by apply timings_of_insert_eq.
  destruct (add_steps_ok names s1 self start [] Hamb Hl1)
    as (s2 & Hrun & Hl2 & Hframe & _ & Htk).
  cbn [last default ticks s1 app] in Hl2, Htk.
  unfold bind. rewrite Hrun.
  rewrite (server_timings_ok _ _ _ _ Hl2).
  cbv beta iota. cbn [heap code_timer ticks].
  eexists. split; [|split; [|split; [|split]]].
  - rewrite step_records_entries by done.
    unfold dur_entry, step_record, join. cbn [total time start].
    rewrite Htk. reflexivity.
  - rewrite timings_of_insert_eq. cbn [map name start].
    rewrite map_app, step_records_names. done.
  - intros other Hne. rewrite timings_of_insert_ne by done.
    change (default [] (heap s2 !! other)) with (timings_of s2 other).
    rewrite (Hframe other Hne). unfold s1.
    by rewrite timings_of_insert_ne.
  - done.
  - cbn [ticks]. lia.
Qed.

(** X2: steps are kept in call order.  With an ambient timer that holds a
    record, [add_step] called for each of [names] appends one record per
    name, in that order, stamped with the successive clock readings; no
    other timer and not the ambient variable is touched. *)
Theorem add_steps_in_order `{PyRuntime} (names : list string) (s : state)
    (timer : ref) (first : Timing) (rest : list Timing) :
  code_timer_get s = Some timer →
  timings_of s timer = first :: rest →
  ∃ (recs : list Timing) (s' : state),
    add_steps names s = (Ok tt, s')
    ∧ timings_of s' timer = first :: rest ++ recs
    ∧ map name recs = names
    ∧ map time recs = map perf_counter_at (seq (ticks s) (length names))
    ∧ (∀ other, other ≠ timer → timings_of s' other = timings_of s other)
    ∧ code_timer s' = code_timer s
    ∧ ticks s' = ticks s + length names.
Proof.
  intros Hamb Hl.
  destruct (add_steps_ok names s timer first rest Hamb Hl)
    as (s' & Hrun & Hl' & Hframe & Hct & Htk).
  eexists. exists s'.
  split; [exact Hrun|]. split; [exact Hl'|].
  split; [apply step_records_names|].
  split; [apply step_records_times|]. done.
Qed.

(** X3: the timing chain.  In every timer of a state reached from the
    initial state, and in a timer created in any state, after any sequence
    of calls, each record after the first holds as [delta] its reading
    minus the reading of the record before it and as [total] its reading
    minus the reading of the [start] record. *)
Theorem sessions_well_timed `{PyRuntime} (os : list op) :
  (∀ r, well_timed (timings_of (exec_ops os initial_state) r))
  ∧ (∀ s, well_timed
            (timings_of (exec_ops os (snd (__init__ s)))
               (fresh (dom (heap s))))).
Proof.
  split.
  - intros r. apply exec_ops_well_timed.
    intros i start prev x H0. done.
  - intros s. apply exec_ops_well_timed.
    rewrite __init___ok. cbn [snd]. rewrite timings_of_insert_eq.
    intros i start prev x _ _ Hx. by destruct i.
Qed.

(** X4: sessions are isolated.  A timer that exists and is not ambient is
    left exactly as it was by every sequence of calls that neither name it
    nor make it ambient. *)
Theorem untouched_timer_unchanged `{PyRuntime} (b : ref) (os : list op)
    (s : state) :
  b ∈ dom (heap s) →
  code_timer_get s ≠ Some b →
  forallb (op_avoids b) os = true →
  timings_of (exec_ops os s) b = timings_of s b.
Proof.
  revert s. induction os as [|o os IH]; intros s Hdom Hamb Hav; [done|].
  cbn [forallb] in Hav. apply andb_true_iff in Hav as [Ho Hos].
  destruct (exec_op_avoids b o s Ho Hdom Hamb) as (Hsame & Hdom' & Hamb').
  cbn [exec_ops fold_left].
  change (fold_left (λ s0 o0, exec_op o0 s0) os (exec_op o s))
    with (exec_ops os (exec_op o s)).
  rewrite (IH (exec_op o s) Hdom' Hamb' Hos). exact Hsame.
Qed.

(** X5: the header is rendered, not read.  Each call of [server_timings]
    appends a record [end] of its own, so a second call lists the first
    record [end] among the steps: its header is the entries of the steps,
    then [end;dur=] of the first call, then its own total. *)
Theorem server_timings_again `{PyRuntime} (self : ref) (s : state)
    (first : Timing) (steps : list Timing) :
  timings_of s self = first :: steps →
  ∃ (end1 end2 : Timing) (s' : state),
    (server_timings self ;;; server_timings self) s
    = (Ok (String.concat ", "
             (map (fun t => name t +:+ ";dur="
                            +:+ py_str_float (py_round (delta t * 1000) 1))
                  steps
              ++ ["end;dur=" +:+ py_str_float (py_round (delta end1 * 1000) 1);
                  "total;dur="
                  +:+ py_str_float (py_round (total end2 * 1000) 1)])),
       s')
    ∧ timings_of s' self = first :: steps ++ [end1; end2]
    ∧ name end1 = "end" ∧ name end2 = "end"
    ∧ time end1 = perf_counter_at (ticks s)
    ∧ time end2 = perf_counter_at (S (ticks s))
    ∧ delta end2 = (time end2 - time end1)%float.
Proof.
  intros Hl.
  set (end1 := step_record "end" s first steps).
  unfold bind. rewrite (server_timings_ok _ _ _ _ Hl). fold end1.
  set (s1 := mkState _ _ _).
  assert (timings_of s1 self = first :: (steps ++ [end1])) as Hl1
    by apply timings_of_insert_eq.
  rewrite (server_timings_ok _ _ _ _ Hl1).
  exists end1, (step_record "end" s1 first (steps ++ [end1])). eexists.
  split.
  { f_equal. unfold join. f_equal. rewrite map_app, <- app_assoc. done. }
  split; [rewrite timings_of_insert_eq; by rewrite <- app_assoc|].
  split; [done|]. split; [done|]. split; [done|]. split; [done|].
  unfold step_record. cbn [delta time]. by rewrite last_snoc.
Qed.

(** X6: a timer whose [__init__] has not run sees the empty class-level
    list: [_add_step] and [server_timings] raise [IndexError] on it, and so
    does [Timer.add_step] when it is the ambient timer; nothing is written
    and the clock is not read. *)
Theorem uninitialised_timer_raises `{PyRuntime} (self : ref) (n : string)
    (s : state) :
  timings_of s self = [] →
  _add_step self n s = (Raise IndexError, s)
  ∧ server_timings self s = (Raise IndexError, s)
  ∧ (code_timer_get s = Some self → add_step n s = (Raise IndexError, s)).
Proof.
  intros Hl.
  split; [by apply _add_step_empty|].
  split; [by apply server_timings_empty|].
  intros Hamb. unfold add_step. rewrite Hamb. unfold bind.
  by rewrite (_add_step_empty _ _ _ Hl).
Qed.

(** X7: a session shadows the one around it and gives it back.  With
    [outer] ambient, a step recorded inside [with self.context()] goes to
    [self] and not to [outer], and a step recorded after the block goes to
    [outer] again. *)
Theorem context_shadows_and_restores `{PyRuntime} (self outer : ref)
    (n1 n2 : string) (s : state) (fs fo : Timing) (rs ro : list Timing) :
  code_timer_get s = Some outer →
  outer ≠ self →
  timings_of s self = fs :: rs →
  timings_of s outer = fo :: ro →
  ∃ (r1 r2 : Timing) (s' : state),
    (context self (fun _ => add_step n1) ;;; add_step n2) s = (Ok tt, s')
    ∧ timings_of s' self = fs :: rs ++ [r1]
    ∧ timings_of s' outer = fo :: ro ++ [r2]
    ∧ name r1 = n1 ∧ name r2 = n2
    ∧ time r1 = perf_counter_at (ticks s)
    ∧ time r2 = perf_counter_at (S (ticks s))
    ∧ code_timer s' = code_timer s.
Proof.
  intros Hamb Hne Hls Hlo.
  unfold bind at 1.
  unfold context, bind at 1, code_timer_set, try_finally, code_timer_reset.
  set (s1 := mkState (heap s) (Some (Some self)) (ticks s)).
  assert (code_timer_get s1 = Some self) as Hamb1 by done.
  assert (timings_of s1 self = fs :: rs) as Hl1 by exact Hls.
  rewrite (add_step_ok _ _ _ _ _ Hamb1 Hl1). cbn [heap code_timer ticks s1].
  set (r1 := step_record n1 s1 fs rs).
  set (s2 := mkState _ (code_timer s) _).
  assert (code_timer_get s2 = Some outer) as Hamb2 by exact Hamb.
  assert (timings_of s2 outer = fo :: ro) as Hl2.
  { unfold s2. rewrite timings_of_insert_ne by done. exact Hlo. }
  rewrite (add_step_ok _ _ _ _ _ Hamb2 Hl2).
  exists r1, (step_record n2 s2 fo ro). eexists.
  split; [reflexivity|].
  split.
  { rewrite timings_of_insert_ne by done. unfold s2. cbn [heap].
    by rewrite lookup_insert_eq. }
  split; [by rewrite timings_of_insert_eq|]. done.
Qed.

(** *** The guarantees at concrete sessions *)

(** A timed request with two steps, from the initial state. *)
Example timed_session_run :
  fst (timed_session (H := example_runtime) ["parse"; "query"] initial_state)
  = Ok "parse;dur=<ms>, query;dur=<ms>, total;dur=<ms>"
  ∧ timings_of
      (snd (timed_session (H := example_runtime) ["parse"; "query"]
              initial_state)) 0
    = [mkTiming "start" 0 0 0; mkTiming "parse" 0.125 0.125 0.125;
       mkTiming "query" 0.125 0.25 0.25; mkTiming "end" 0.125 0.375 0.375].
Proof. by vm_compute. Qed.

(** X2 at the session under way. *)
Lemma add_steps_in_order_witness :
  ∃ (recs : list Timing) (s' : state),
    add_steps (H := example_runtime) ["parse"; "render"] session_state
    = (Ok tt, s')
    ∧ timings_of s' 0
      = mkTiming "start" 0 0 0 :: [mkTiming "query" 0.125 0.125 0.125] ++ recs
    ∧ map name recs = ["parse"; "render"].
Proof.
  assert (code_timer_get session_state = Some 0) as Hamb
    by (vm_compute; reflexivity).
  assert (timings_of session_state 0
          = [mkTiming "start" 0 0 0; mkTiming "query" 0.125 0.125 0.125])
    as Hl by (vm_compute; reflexivity).
  destruct (add_steps_in_order (H := example_runtime) ["parse"; "render"]
              session_state 0 _ _ Hamb Hl)
    as (recs & s' & H1 & H2 & H3 & _).
  exists recs, s'. auto.
Defined.

(** X4 with two timers: calls on the first leave the second alone. *)
Lemma untouched_timer_unchanged_witness :
  timings_of
    (exec_ops (H := example_runtime)
       [AddStep "a"; ServerTimings 0; NewTimer; SelfAddStep 0 "b"]
       two_timers_state) 1
  = timings_of two_timers_state 1.
Proof.
  apply untouched_timer_unchanged.
  - apply elem_of_dom. eexists. vm_compute. reflexivity.
  - vm_compute. discriminate.
  - vm_compute. reflexivity.
Defined.

(** X5 at the session under way. *)
Lemma server_timings_again_witness :
  ∃ (end1 end2 : Timing) (s' : state),
    timings_of s' 0
    = [mkTiming "start" 0 0 0; mkTiming "query" 0.125 0.125 0.125; end1; end2]
    ∧ name end1 = "end" ∧ name end2 = "end".
Proof.
  assert (timings_of session_state 0
          = [mkTiming "start" 0 0 0; mkTiming "query" 0.125 0.125 0.125])
    as Hl by (vm_compute; reflexivity).
  destruct (server_timings_again (H := example_runtime) 0 session_state _ _ Hl)
    as (end1 & end2 & s' & _ & H2 & H3 & H4 & _).
  exists end1, end2, s'. auto.
Defined.

(** X6 at a timer that was never initialised. *)
Lemma uninitialised_timer_raises_witness :
  _add_step (H := example_runtime) 7 "query" initial_state
  = (Raise IndexError, initial_state)
  ∧ server_timings (H := example_runtime) 7 initial_state
    = (Raise IndexError, initial_state).
Proof.
  assert (timings_of initial_state 7 = []) as Hl by reflexivity.
  destruct (uninitialised_timer_raises (H := example_runtime) 7 "query"
              initial_state Hl) as (H1 & H2 & _).
  split; [exact H1 | exact H2].
Defined.

(** X7 with two timers, the first one ambient. *)
Lemma context_shadows_and_restores_witness :
  ∃ (r1 r2 : Timing) (s' : state),
    (context 1 (fun _ => add_step (H := example_runtime) "inner")
     ;;; add_step (H := example_runtime) "outer") two_timers_state
    = (Ok tt, s')
    ∧ timings_of s' 1 = [mkTiming "start" 0 0 0.125; r1]
    ∧ timings_of s' 0 = [mkTiming "start" 0 0 0; r2]
    ∧ name r1 = "inner" ∧ name r2 = "outer".
Proof.
  assert (code_timer_get two_timers_state = Some 0) as Hamb
    by (vm_compute; reflexivity).
  assert (timings_of two_timers_state 1 = [mkTiming "start" 0 0 0.125])
    as Hl1 by (vm_compute; reflexivity).
  assert (timings_of two_timers_state 0 = [mkTiming "start" 0 0 0])
    as Hl0 by (vm_compute; reflexivity).
  assert (0 ≠ 1) as Hne by lia.
  destruct (context_shadows_and_restores (H := example_runtime) 1 0
              "inner" "outer" two_timers_state _ _ _ _ Hamb Hne Hl1 Hl0)
    as (r1 & r2 & s' & H1 & H2 & H3 & H4 & H5 & _).
  exists r1, r2, s'. auto.
Defined.

End timer_sessions.
